(** * The rustdoc implementors loader of [parity_scale_codec::Encode]

    A shallow embedding of
    [src/implementors/parity_scale_codec/codec/trait.Encode.js].

    The file is one immediately-invoked function expression:
<<
    (function() {var implementors = {};
    implementors[k1] = [...];
    implementors[k2] = [...];
    implementors[k3] = [...];
    if (window.register_implementors) {window.register_implementors(implementors);}
    else {window.pending_implementors = implementors;}})()
>>
    JavaScript values become an inductive type, the global object [window]
    a finite map from property names to values, and the statements of the
    function body state transformers in a small state-and-exception monad
    that also records every access the script makes to a global.

    The script runs in a page, so [window] exists, and its two properties
    are plain data properties.  The function the page installs as
    [window.register_implementors] is not part of this file: its call is an
    event of the script, its body is not run here. *)

From Stdlib Require Import ZArith Ascii String.
From stdpp Require Import base option list strings gmap fin_maps relations.

Local Open Scope string_scope.
Local Open Scope list_scope.
Local Open Scope nat_scope.
Local Set Warnings "-register-all".

(** ** JavaScript values *)

(** The part of the value universe the script can touch.  Numbers are
    restricted to integers (the script does no arithmetic).  A function is a
    host function, known by its name only: its body belongs to the page that
    installs it, not to this file.  Objects are compared by their contents,
    so equality of values is deep equality. *)
Inductive value : Type :=
  | VUndefined
  | VNull
  | VBool (b : bool)
  | VNum (n : Z)
  | VStr (s : string)
  | VArr (items : list value)
  | VObj (props : gmap string value)
  | VFun (name : string).

(** [ToBoolean], the test performed by [if (...)]. *)
Definition truthy (v : value) : bool :=
  match v with
  | VUndefined | VNull => false
  | VBool b => b
  | VNum n => negb (n =? 0)%Z
  | VStr s => negb (String.eqb s EmptyString)
  | VArr _ | VObj _ | VFun _ => true
  end.

Definition callable (v : value) : bool :=
  match v with VFun _ => true | _ => false end.

(** ** The literals of the script *)

Definition dquote : string := String "034"%char EmptyString.

(** The display text of a descriptor is HTML full of double quotes; [html]
    takes the pieces between the quotes and puts the quotes back. *)
Definition html (pieces : list string) : string := String.concat dquote pieces.

(** The object literal [{text: .., synthetic: .., types: [..]}], its
    properties created in that order. *)
Definition descriptor (text : string) (synthetic : bool) (types : list string) : value :=
  VObj (<["types" := VArr (VStr <$> types)]>
       (<["synthetic" := VBool synthetic]>
       (<["text" := VStr text]> ∅))).

(** [implementors["ink_env"] = [...]]: 8 descriptors. *)
Definition ink_env_impls : list value :=
  [
    descriptor
      (html ["impl&lt;T&gt; Encode for <a class="; "struct"; " href=";
         "ink_env/call/utils/struct.Argument.html"; " title=";
         "struct ink_env::call::utils::Argument"; ">Argument</a>&lt;T&gt; <span class=";
         "where fmt-newline"; ">where<br>&nbsp;&nbsp;&nbsp;&nbsp;T: Encode,&nbsp;</span>"])
      false
      ["ink_env::call::execution_input::Argument"];
    descriptor
      (html ["impl Encode for <a class="; "type"; " href=";
         "ink_env/call/utils/type.EmptyArgumentList.html"; " title=";
         "type ink_env::call::utils::EmptyArgumentList"; ">EmptyArgumentList</a>"])
      false
      ["ink_env::call::execution_input::EmptyArgumentList"];
    descriptor
      (html ["impl&lt;'a, Head, Rest&gt; Encode for <a class="; "struct"; " href=";
         "ink_env/call/utils/struct.ArgumentList.html"; " title=";
         "struct ink_env::call::utils::ArgumentList"; ">ArgumentList</a>&lt;<a class="; "struct";
         " href="; "ink_env/call/utils/struct.Argument.html"; " title=";
         "struct ink_env::call::utils::Argument"; ">Argument</a>&lt;Head&gt;, Rest&gt; <span class=";
         "where fmt-newline";
         ">where<br>&nbsp;&nbsp;&nbsp;&nbsp;Head: Encode,<br>&nbsp;&nbsp;&nbsp;&nbsp;Rest: Encode,&nbsp;</span>"])
      false
      ["ink_env::call::execution_input::ArgumentList"];
    descriptor
      (html ["impl&lt;Args&gt; Encode for <a class="; "struct"; " href=";
         "ink_env/call/struct.ExecutionInput.html"; " title=";
         "struct ink_env::call::ExecutionInput"; ">ExecutionInput</a>&lt;Args&gt; <span class=";
         "where fmt-newline"; ">where<br>&nbsp;&nbsp;&nbsp;&nbsp;Args: Encode,&nbsp;</span>"])
      false
      ["ink_env::call::execution_input::ExecutionInput"];
    descriptor
      (html ["impl Encode for <a class="; "struct"; " href="; "ink_env/call/struct.Selector.html";
         " title="; "struct ink_env::call::Selector"; ">Selector</a>"])
      false
      ["ink_env::call::selector::Selector"];
    descriptor
      (html ["impl Encode for <a class="; "struct"; " href="; "ink_env/test/struct.CallData.html";
         " title="; "struct ink_env::test::CallData"; ">CallData</a>"])
      false
      ["ink_env::engine::off_chain::call_data::CallData"];
    descriptor
      (html ["impl Encode for <a class="; "struct"; " href="; "ink_env/struct.AccountId.html"; " title=";
         "struct ink_env::AccountId"; ">AccountId</a>"])
      false
      ["ink_env::types::AccountId"];
    descriptor
      (html ["impl Encode for <a class="; "struct"; " href="; "ink_env/struct.Hash.html"; " title=";
         "struct ink_env::Hash"; ">Hash</a>"])
      false
      ["ink_env::types::Hash"]
  ].

(** [implementors["ink_primitives"] = [...]]: 1 descriptor. *)
Definition ink_primitives_impls : list value :=
  [
    descriptor
      (html ["impl Encode for <a class="; "struct"; " href="; "ink_primitives/struct.Key.html";
         " title="; "struct ink_primitives::Key"; ">Key</a>"])
      false
      ["ink_primitives::key::Key"]
  ].

(** [implementors["scale_info"] = [...]]: 16 descriptors. *)
Definition scale_info_impls : list value :=
  [
    descriptor
      (html ["impl&lt;T&gt; Encode for <a class="; "struct"; " href=";
         "scale_info/interner/struct.UntrackedSymbol.html"; " title=";
         "struct scale_info::interner::UntrackedSymbol";
         ">UntrackedSymbol</a>&lt;T&gt; <span class="; "where fmt-newline";
         ">where<br>&nbsp;&nbsp;&nbsp;&nbsp;<a class="; "struct"; " href=";
         "scale_info/prelude/marker/struct.PhantomData.html"; " title=";
         "struct scale_info::prelude::marker::PhantomData"; ">PhantomData</a>&lt;<a class=";
         "primitive"; " href="; "https://doc.rust-lang.org/nightly/std/primitive.fn.html";
         ">fn</a>() -&gt; T&gt;: Encode,<br>&nbsp;&nbsp;&nbsp;&nbsp;<a class="; "struct"; " href=";
         "scale_info/prelude/marker/struct.PhantomData.html"; " title=";
         "struct scale_info::prelude::marker::PhantomData"; ">PhantomData</a>&lt;<a class=";
         "primitive"; " href="; "https://doc.rust-lang.org/nightly/std/primitive.fn.html";
         ">fn</a>() -&gt; T&gt;: Encode,&nbsp;</span>"])
      false
      ["scale_info::interner::UntrackedSymbol"];
    descriptor
      (html ["impl Encode for <a class="; "struct"; " href="; "scale_info/struct.PortableRegistry.html";
         " title="; "struct scale_info::PortableRegistry"; ">PortableRegistry</a>"])
      false
      ["scale_info::registry::PortableRegistry"];
    descriptor
      (html ["impl&lt;T:&nbsp;<a class="; "trait"; " href="; "scale_info/form/trait.Form.html";
         " title="; "trait scale_info::form::Form"; ">Form</a>&gt; Encode for <a class="; "struct";
         " href="; "scale_info/struct.TypeDefComposite.html"; " title=";
         "struct scale_info::TypeDefComposite"; ">TypeDefComposite</a>&lt;T&gt; <span class=";
         "where fmt-newline"; ">where<br>&nbsp;&nbsp;&nbsp;&nbsp;<a class="; "struct"; " href=";
         "scale_info/prelude/vec/struct.Vec.html"; " title="; "struct scale_info::prelude::vec::Vec";
         ">Vec</a>&lt;<a class="; "struct"; " href="; "scale_info/struct.Field.html"; " title=";
         "struct scale_info::Field";
         ">Field</a>&lt;T&gt;&gt;: Encode,<br>&nbsp;&nbsp;&nbsp;&nbsp;<a class="; "struct"; " href=";
         "scale_info/prelude/vec/struct.Vec.html"; " title="; "struct scale_info::prelude::vec::Vec";
         ">Vec</a>&lt;<a class="; "struct"; " href="; "scale_info/struct.Field.html"; " title=";
         "struct scale_info::Field"; ">Field</a>&lt;T&gt;&gt;: Encode,&nbsp;</span>"])
      false
      ["scale_info::ty::composite::TypeDefComposite"];
    descriptor
      (html ["impl&lt;T:&nbsp;<a class="; "trait"; " href="; "scale_info/form/trait.Form.html";
         " title="; "trait scale_info::form::Form"; ">Form</a>&gt; Encode for <a class="; "struct";
         " href="; "scale_info/struct.Field.html"; " title="; "struct scale_info::Field";
         ">Field</a>&lt;T&gt; <span class="; "where fmt-newline";
         ">where<br>&nbsp;&nbsp;&nbsp;&nbsp;<a class="; "enum"; " href=";
         "https://doc.rust-lang.org/nightly/core/option/enum.Option.html"; " title=";
         "enum core::option::Option"; ">Option</a>&lt;T::<a class="; "associatedtype"; " href=";
         "scale_info/form/trait.Form.html#associatedtype.String"; " title=";
         "type scale_info::form::Form::String";
         ">String</a>&gt;: Encode,<br>&nbsp;&nbsp;&nbsp;&nbsp;<a class="; "enum"; " href=";
         "https://doc.rust-lang.org/nightly/core/option/enum.Option.html"; " title=";
         "enum core::option::Option"; ">Option</a>&lt;T::<a class="; "associatedtype"; " href=";
         "scale_info/form/trait.Form.html#associatedtype.String"; " title=";
         "type scale_info::form::Form::String";
         ">String</a>&gt;: Encode,<br>&nbsp;&nbsp;&nbsp;&nbsp;T::<a class="; "associatedtype";
         " href="; "scale_info/form/trait.Form.html#associatedtype.Type"; " title=";
         "type scale_info::form::Form::Type";
         ">Type</a>: Encode,<br>&nbsp;&nbsp;&nbsp;&nbsp;T::<a class="; "associatedtype"; " href=";
         "scale_info/form/trait.Form.html#associatedtype.Type"; " title=";
         "type scale_info::form::Form::Type";
         ">Type</a>: Encode,<br>&nbsp;&nbsp;&nbsp;&nbsp;<a class="; "enum"; " href=";
         "https://doc.rust-lang.org/nightly/core/option/enum.Option.html"; " title=";
         "enum core::option::Option"; ">Option</a>&lt;T::<a class="; "associatedtype"; " href=";
         "scale_info/form/trait.Form.html#associatedtype.String"; " title=";
         "type scale_info::form::Form::String";
         ">String</a>&gt;: Encode,<br>&nbsp;&nbsp;&nbsp;&nbsp;<a class="; "enum"; " href=";
         "https://doc.rust-lang.org/nightly/core/option/enum.Option.html"; " title=";
         "enum core::option::Option"; ">Option</a>&lt;T::<a class="; "associatedtype"; " href=";
         "scale_info/form/trait.Form.html#associatedtype.String"; " title=";
         "type scale_info::form::Form::String";
         ">String</a>&gt;: Encode,<br>&nbsp;&nbsp;&nbsp;&nbsp;<a class="; "struct"; " href=";
         "scale_info/prelude/vec/struct.Vec.html"; " title="; "struct scale_info::prelude::vec::Vec";
         ">Vec</a>&lt;T::<a class="; "associatedtype"; " href=";
         "scale_info/form/trait.Form.html#associatedtype.String"; " title=";
         "type scale_info::form::Form::String";
         ">String</a>&gt;: Encode,<br>&nbsp;&nbsp;&nbsp;&nbsp;<a class="; "struct"; " href=";
         "scale_info/prelude/vec/struct.Vec.html"; " title="; "struct scale_info::prelude::vec::Vec";
         ">Vec</a>&lt;T::<a class="; "associatedtype"; " href=";
         "scale_info/form/trait.Form.html#associatedtype.String"; " title=";
         "type scale_info::form::Form::String"; ">String</a>&gt;: Encode,&nbsp;</span>"])
      false
      ["scale_info::ty::fields::Field"];
    descriptor
      (html ["impl&lt;T:&nbsp;<a class="; "trait"; " href="; "scale_info/form/trait.Form.html";
         " title="; "trait scale_info::form::Form"; ">Form</a>&gt; Encode for <a class="; "struct";
         " href="; "scale_info/struct.Path.html"; " title="; "struct scale_info::Path";
         ">Path</a>&lt;T&gt; <span class="; "where fmt-newline";
         ">where<br>&nbsp;&nbsp;&nbsp;&nbsp;<a class="; "struct"; " href=";
         "scale_info/prelude/vec/struct.Vec.html"; " title="; "struct scale_info::prelude::vec::Vec";
         ">Vec</a>&lt;T::<a class="; "associatedtype"; " href=";
         "scale_info/form/trait.Form.html#associatedtype.String"; " title=";
         "type scale_info::form::Form::String";
         ">String</a>&gt;: Encode,<br>&nbsp;&nbsp;&nbsp;&nbsp;<a class="; "struct"; " href=";
         "scale_info/prelude/vec/struct.Vec.html"; " title="; "struct scale_info::prelude::vec::Vec";
         ">Vec</a>&lt;T::<a class="; "associatedtype"; " href=";
         "scale_info/form/trait.Form.html#associatedtype.String"; " title=";
         "type scale_info::form::Form::String"; ">String</a>&gt;: Encode,&nbsp;</span>"])
      false
      ["scale_info::ty::path::Path"];
    descriptor
      (html ["impl&lt;T:&nbsp;<a class="; "trait"; " href="; "scale_info/form/trait.Form.html";
         " title="; "trait scale_info::form::Form"; ">Form</a>&gt; Encode for <a class="; "struct";
         " href="; "scale_info/struct.TypeDefVariant.html"; " title=";
         "struct scale_info::TypeDefVariant"; ">TypeDefVariant</a>&lt;T&gt; <span class=";
         "where fmt-newline"; ">where<br>&nbsp;&nbsp;&nbsp;&nbsp;<a class="; "struct"; " href=";
         "scale_info/prelude/vec/struct.Vec.html"; " title="; "struct scale_info::prelude::vec::Vec";
         ">Vec</a>&lt;<a class="; "struct"; " href="; "scale_info/struct.Variant.html"; " title=";
         "struct scale_info::Variant";
         ">Variant</a>&lt;T&gt;&gt;: Encode,<br>&nbsp;&nbsp;&nbsp;&nbsp;<a class="; "struct";
         " href="; "scale_info/prelude/vec/struct.Vec.html"; " title=";
         "struct scale_info::prelude::vec::Vec"; ">Vec</a>&lt;<a class="; "struct"; " href=";
         "scale_info/struct.Variant.html"; " title="; "struct scale_info::Variant";
         ">Variant</a>&lt;T&gt;&gt;: Encode,&nbsp;</span>"])
      false
      ["scale_info::ty::variant::TypeDefVariant"];
    descriptor
      (html ["impl&lt;T:&nbsp;<a class="; "trait"; " href="; "scale_info/form/trait.Form.html";
         " title="; "trait scale_info::form::Form"; ">Form</a>&gt; Encode for <a class="; "struct";
         " href="; "scale_info/struct.Variant.html"; " title="; "struct scale_info::Variant";
         ">Variant</a>&lt;T&gt; <span class="; "where fmt-newline";
         ">where<br>&nbsp;&nbsp;&nbsp;&nbsp;T::<a class="; "associatedtype"; " href=";
         "scale_info/form/trait.Form.html#associatedtype.String"; " title=";
         "type scale_info::form::Form::String";
         ">String</a>: Encode,<br>&nbsp;&nbsp;&nbsp;&nbsp;T::<a class="; "associatedtype"; " href=";
         "scale_info/form/trait.Form.html#associatedtype.String"; " title=";
         "type scale_info::form::Form::String";
         ">String</a>: Encode,<br>&nbsp;&nbsp;&nbsp;&nbsp;<a class="; "struct"; " href=";
         "scale_info/prelude/vec/struct.Vec.html"; " title="; "struct scale_info::prelude::vec::Vec";
         ">Vec</a>&lt;<a class="; "struct"; " href="; "scale_info/struct.Field.html"; " title=";
         "struct scale_info::Field";
         ">Field</a>&lt;T&gt;&gt;: Encode,<br>&nbsp;&nbsp;&nbsp;&nbsp;<a class="; "struct"; " href=";
         "scale_info/prelude/vec/struct.Vec.html"; " title="; "struct scale_info::prelude::vec::Vec";
         ">Vec</a>&lt;<a class="; "struct"; " href="; "scale_info/struct.Field.html"; " title=";
         "struct scale_info::Field";
         ">Field</a>&lt;T&gt;&gt;: Encode,<br>&nbsp;&nbsp;&nbsp;&nbsp;<a class="; "struct"; " href=";
         "scale_info/prelude/vec/struct.Vec.html"; " title="; "struct scale_info::prelude::vec::Vec";
         ">Vec</a>&lt;T::<a class="; "associatedtype"; " href=";
         "scale_info/form/trait.Form.html#associatedtype.String"; " title=";
         "type scale_info::form::Form::String";
         ">String</a>&gt;: Encode,<br>&nbsp;&nbsp;&nbsp;&nbsp;<a class="; "struct"; " href=";
         "scale_info/prelude/vec/struct.Vec.html"; " title="; "struct scale_info::prelude::vec::Vec";
         ">Vec</a>&lt;T::<a class="; "associatedtype"; " href=";
         "scale_info/form/trait.Form.html#associatedtype.String"; " title=";
         "type scale_info::form::Form::String"; ">String</a>&gt;: Encode,&nbsp;</span>"])
      false
      ["scale_info::ty::variant::Variant"];
    descriptor
      (html ["impl&lt;T:&nbsp;<a class="; "trait"; " href="; "scale_info/form/trait.Form.html";
         " title="; "trait scale_info::form::Form"; ">Form</a>&gt; Encode for <a class="; "struct";
         " href="; "scale_info/struct.Type.html"; " title="; "struct scale_info::Type";
         ">Type</a>&lt;T&gt; <span class="; "where fmt-newline";
         ">where<br>&nbsp;&nbsp;&nbsp;&nbsp;<a class="; "struct"; " href=";
         "scale_info/struct.Path.html"; " title="; "struct scale_info::Path";
         ">Path</a>&lt;T&gt;: Encode,<br>&nbsp;&nbsp;&nbsp;&nbsp;<a class="; "struct"; " href=";
         "scale_info/struct.Path.html"; " title="; "struct scale_info::Path";
         ">Path</a>&lt;T&gt;: Encode,<br>&nbsp;&nbsp;&nbsp;&nbsp;<a class="; "struct"; " href=";
         "scale_info/prelude/vec/struct.Vec.html"; " title="; "struct scale_info::prelude::vec::Vec";
         ">Vec</a>&lt;<a class="; "struct"; " href="; "scale_info/struct.TypeParameter.html";
         " title="; "struct scale_info::TypeParameter";
         ">TypeParameter</a>&lt;T&gt;&gt;: Encode,<br>&nbsp;&nbsp;&nbsp;&nbsp;<a class="; "struct";
         " href="; "scale_info/prelude/vec/struct.Vec.html"; " title=";
         "struct scale_info::prelude::vec::Vec"; ">Vec</a>&lt;<a class="; "struct"; " href=";
         "scale_info/struct.TypeParameter.html"; " title="; "struct scale_info::TypeParameter";
         ">TypeParameter</a>&lt;T&gt;&gt;: Encode,<br>&nbsp;&nbsp;&nbsp;&nbsp;<a class="; "enum";
         " href="; "scale_info/enum.TypeDef.html"; " title="; "enum scale_info::TypeDef";
         ">TypeDef</a>&lt;T&gt;: Encode,<br>&nbsp;&nbsp;&nbsp;&nbsp;<a class="; "enum"; " href=";
         "scale_info/enum.TypeDef.html"; " title="; "enum scale_info::TypeDef";
         ">TypeDef</a>&lt;T&gt;: Encode,<br>&nbsp;&nbsp;&nbsp;&nbsp;<a class="; "struct"; " href=";
         "scale_info/prelude/vec/struct.Vec.html"; " title="; "struct scale_info::prelude::vec::Vec";
         ">Vec</a>&lt;T::<a class="; "associatedtype"; " href=";
         "scale_info/form/trait.Form.html#associatedtype.String"; " title=";
         "type scale_info::form::Form::String";
         ">String</a>&gt;: Encode,<br>&nbsp;&nbsp;&nbsp;&nbsp;<a class="; "struct"; " href=";
         "scale_info/prelude/vec/struct.Vec.html"; " title="; "struct scale_info::prelude::vec::Vec";
         ">Vec</a>&lt;T::<a class="; "associatedtype"; " href=";
         "scale_info/form/trait.Form.html#associatedtype.String"; " title=";
         "type scale_info::form::Form::String"; ">String</a>&gt;: Encode,&nbsp;</span>"])
      false
      ["scale_info::ty::Type"];
    descriptor
      (html ["impl&lt;T:&nbsp;<a class="; "trait"; " href="; "scale_info/form/trait.Form.html";
         " title="; "trait scale_info::form::Form"; ">Form</a>&gt; Encode for <a class="; "struct";
         " href="; "scale_info/struct.TypeParameter.html"; " title=";
         "struct scale_info::TypeParameter"; ">TypeParameter</a>&lt;T&gt; <span class=";
         "where fmt-newline"; ">where<br>&nbsp;&nbsp;&nbsp;&nbsp;T::<a class="; "associatedtype";
         " href="; "scale_info/form/trait.Form.html#associatedtype.String"; " title=";
         "type scale_info::form::Form::String";
         ">String</a>: Encode,<br>&nbsp;&nbsp;&nbsp;&nbsp;T::<a class="; "associatedtype"; " href=";
         "scale_info/form/trait.Form.html#associatedtype.String"; " title=";
         "type scale_info::form::Form::String";
         ">String</a>: Encode,<br>&nbsp;&nbsp;&nbsp;&nbsp;<a class="; "enum"; " href=";
         "https://doc.rust-lang.org/nightly/core/option/enum.Option.html"; " title=";
         "enum core::option::Option"; ">Option</a>&lt;T::<a class="; "associatedtype"; " href=";
         "scale_info/form/trait.Form.html#associatedtype.Type"; " title=";
         "type scale_info::form::Form::Type";
         ">Type</a>&gt;: Encode,<br>&nbsp;&nbsp;&nbsp;&nbsp;<a class="; "enum"; " href=";
         "https://doc.rust-lang.org/nightly/core/option/enum.Option.html"; " title=";
         "enum core::option::Option"; ">Option</a>&lt;T::<a class="; "associatedtype"; " href=";
         "scale_info/form/trait.Form.html#associatedtype.Type"; " title=";
         "type scale_info::form::Form::Type"; ">Type</a>&gt;: Encode,&nbsp;</span>"])
      false
      ["scale_info::ty::TypeParameter"];
    descriptor
      (html ["impl&lt;T:&nbsp;<a class="; "trait"; " href="; "scale_info/form/trait.Form.html";
         " title="; "trait scale_info::form::Form"; ">Form</a>&gt; Encode for <a class="; "enum";
         " href="; "scale_info/enum.TypeDef.html"; " title="; "enum scale_info::TypeDef";
         ">TypeDef</a>&lt;T&gt; <span class="; "where fmt-newline";
         ">where<br>&nbsp;&nbsp;&nbsp;&nbsp;<a class="; "struct"; " href=";
         "scale_info/struct.TypeDefComposite.html"; " title="; "struct scale_info::TypeDefComposite";
         ">TypeDefComposite</a>&lt;T&gt;: Encode,<br>&nbsp;&nbsp;&nbsp;&nbsp;<a class="; "struct";
         " href="; "scale_info/struct.TypeDefComposite.html"; " title=";
         "struct scale_info::TypeDefComposite";
         ">TypeDefComposite</a>&lt;T&gt;: Encode,<br>&nbsp;&nbsp;&nbsp;&nbsp;<a class="; "struct";
         " href="; "scale_info/struct.TypeDefVariant.html"; " title=";
         "struct scale_info::TypeDefVariant";
         ">TypeDefVariant</a>&lt;T&gt;: Encode,<br>&nbsp;&nbsp;&nbsp;&nbsp;<a class="; "struct";
         " href="; "scale_info/struct.TypeDefVariant.html"; " title=";
         "struct scale_info::TypeDefVariant";
         ">TypeDefVariant</a>&lt;T&gt;: Encode,<br>&nbsp;&nbsp;&nbsp;&nbsp;<a class="; "struct";
         " href="; "scale_info/struct.TypeDefSequence.html"; " title=";
         "struct scale_info::TypeDefSequence";
         ">TypeDefSequence</a>&lt;T&gt;: Encode,<br>&nbsp;&nbsp;&nbsp;&nbsp;<a class="; "struct";
         " href="; "scale_info/struct.TypeDefSequence.html"; " title=";
         "struct scale_info::TypeDefSequence";
         ">TypeDefSequence</a>&lt;T&gt;: Encode,<br>&nbsp;&nbsp;&nbsp;&nbsp;<a class="; "struct";
         " href="; "scale_info/struct.TypeDefArray.html"; " title=";
         "struct scale_info::TypeDefArray";
         ">TypeDefArray</a>&lt;T&gt;: Encode,<br>&nbsp;&nbsp;&nbsp;&nbsp;<a class="; "struct";
         " href="; "scale_info/struct.TypeDefArray.html"; " title=";
         "struct scale_info::TypeDefArray";
         ">TypeDefArray</a>&lt;T&gt;: Encode,<br>&nbsp;&nbsp;&nbsp;&nbsp;<a class="; "struct";
         " href="; "scale_info/struct.TypeDefTuple.html"; " title=";
         "struct scale_info::TypeDefTuple";
         ">TypeDefTuple</a>&lt;T&gt;: Encode,<br>&nbsp;&nbsp;&nbsp;&nbsp;<a class="; "struct";
         " href="; "scale_info/struct.TypeDefTuple.html"; " title=";
         "struct scale_info::TypeDefTuple";
         ">TypeDefTuple</a>&lt;T&gt;: Encode,<br>&nbsp;&nbsp;&nbsp;&nbsp;<a class="; "struct";
         " href="; "scale_info/struct.TypeDefCompact.html"; " title=";
         "struct scale_info::TypeDefCompact";
         ">TypeDefCompact</a>&lt;T&gt;: Encode,<br>&nbsp;&nbsp;&nbsp;&nbsp;<a class="; "struct";
         " href="; "scale_info/struct.TypeDefCompact.html"; " title=";
         "struct scale_info::TypeDefCompact";
         ">TypeDefCompact</a>&lt;T&gt;: Encode,<br>&nbsp;&nbsp;&nbsp;&nbsp;<a class="; "struct";
         " href="; "scale_info/struct.TypeDefBitSequence.html"; " title=";
         "struct scale_info::TypeDefBitSequence";
         ">TypeDefBitSequence</a>&lt;T&gt;: Encode,<br>&nbsp;&nbsp;&nbsp;&nbsp;<a class="; "struct";
         " href="; "scale_info/struct.TypeDefBitSequence.html"; " title=";
         "struct scale_info::TypeDefBitSequence";
         ">TypeDefBitSequence</a>&lt;T&gt;: Encode,&nbsp;</span>"])
      false
      ["scale_info::ty::TypeDef"];
    descriptor
      (html ["impl Encode for <a class="; "enum"; " href="; "scale_info/enum.TypeDefPrimitive.html";
         " title="; "enum scale_info::TypeDefPrimitive"; ">TypeDefPrimitive</a>"])
      false
      ["scale_info::ty::TypeDefPrimitive"];
    descriptor
      (html ["impl&lt;T:&nbsp;<a class="; "trait"; " href="; "scale_info/form/trait.Form.html";
         " title="; "trait scale_info::form::Form"; ">Form</a>&gt; Encode for <a class="; "struct";
         " href="; "scale_info/struct.TypeDefArray.html"; " title=";
         "struct scale_info::TypeDefArray"; ">TypeDefArray</a>&lt;T&gt; <span class=";
         "where fmt-newline"; ">where<br>&nbsp;&nbsp;&nbsp;&nbsp;T::<a class="; "associatedtype";
         " href="; "scale_info/form/trait.Form.html#associatedtype.Type"; " title=";
         "type scale_info::form::Form::Type";
         ">Type</a>: Encode,<br>&nbsp;&nbsp;&nbsp;&nbsp;T::<a class="; "associatedtype"; " href=";
         "scale_info/form/trait.Form.html#associatedtype.Type"; " title=";
         "type scale_info::form::Form::Type"; ">Type</a>: Encode,&nbsp;</span>"])
      false
      ["scale_info::ty::TypeDefArray"];
    descriptor
      (html ["impl&lt;T:&nbsp;<a class="; "trait"; " href="; "scale_info/form/trait.Form.html";
         " title="; "trait scale_info::form::Form"; ">Form</a>&gt; Encode for <a class="; "struct";
         " href="; "scale_info/struct.TypeDefTuple.html"; " title=";
         "struct scale_info::TypeDefTuple"; ">TypeDefTuple</a>&lt;T&gt; <span class=";
         "where fmt-newline"; ">where<br>&nbsp;&nbsp;&nbsp;&nbsp;<a class="; "struct"; " href=";
         "scale_info/prelude/vec/struct.Vec.html"; " title="; "struct scale_info::prelude::vec::Vec";
         ">Vec</a>&lt;T::<a class="; "associatedtype"; " href=";
         "scale_info/form/trait.Form.html#associatedtype.Type"; " title=";
         "type scale_info::form::Form::Type";
         ">Type</a>&gt;: Encode,<br>&nbsp;&nbsp;&nbsp;&nbsp;<a class="; "struct"; " href=";
         "scale_info/prelude/vec/struct.Vec.html"; " title="; "struct scale_info::prelude::vec::Vec";
         ">Vec</a>&lt;T::<a class="; "associatedtype"; " href=";
         "scale_info/form/trait.Form.html#associatedtype.Type"; " title=";
         "type scale_info::form::Form::Type"; ">Type</a>&gt;: Encode,&nbsp;</span>"])
      false
      ["scale_info::ty::TypeDefTuple"];
    descriptor
      (html ["impl&lt;T:&nbsp;<a class="; "trait"; " href="; "scale_info/form/trait.Form.html";
         " title="; "trait scale_info::form::Form"; ">Form</a>&gt; Encode for <a class="; "struct";
         " href="; "scale_info/struct.TypeDefSequence.html"; " title=";
         "struct scale_info::TypeDefSequence"; ">TypeDefSequence</a>&lt;T&gt; <span class=";
         "where fmt-newline"; ">where<br>&nbsp;&nbsp;&nbsp;&nbsp;T::<a class="; "associatedtype";
         " href="; "scale_info/form/trait.Form.html#associatedtype.Type"; " title=";
         "type scale_info::form::Form::Type";
         ">Type</a>: Encode,<br>&nbsp;&nbsp;&nbsp;&nbsp;T::<a class="; "associatedtype"; " href=";
         "scale_info/form/trait.Form.html#associatedtype.Type"; " title=";
         "type scale_info::form::Form::Type"; ">Type</a>: Encode,&nbsp;</span>"])
      false
      ["scale_info::ty::TypeDefSequence"];
    descriptor
      (html ["impl&lt;T:&nbsp;<a class="; "trait"; " href="; "scale_info/form/trait.Form.html";
         " title="; "trait scale_info::form::Form"; ">Form</a>&gt; Encode for <a class="; "struct";
         " href="; "scale_info/struct.TypeDefCompact.html"; " title=";
         "struct scale_info::TypeDefCompact"; ">TypeDefCompact</a>&lt;T&gt; <span class=";
         "where fmt-newline"; ">where<br>&nbsp;&nbsp;&nbsp;&nbsp;T::<a class="; "associatedtype";
         " href="; "scale_info/form/trait.Form.html#associatedtype.Type"; " title=";
         "type scale_info::form::Form::Type";
         ">Type</a>: Encode,<br>&nbsp;&nbsp;&nbsp;&nbsp;T::<a class="; "associatedtype"; " href=";
         "scale_info/form/trait.Form.html#associatedtype.Type"; " title=";
         "type scale_info::form::Form::Type"; ">Type</a>: Encode,&nbsp;</span>"])
      false
      ["scale_info::ty::TypeDefCompact"];
    descriptor
      (html ["impl&lt;T:&nbsp;<a class="; "trait"; " href="; "scale_info/form/trait.Form.html";
         " title="; "trait scale_info::form::Form"; ">Form</a>&gt; Encode for <a class="; "struct";
         " href="; "scale_info/struct.TypeDefBitSequence.html"; " title=";
         "struct scale_info::TypeDefBitSequence"; ">TypeDefBitSequence</a>&lt;T&gt; <span class=";
         "where fmt-newline"; ">where<br>&nbsp;&nbsp;&nbsp;&nbsp;T::<a class="; "associatedtype";
         " href="; "scale_info/form/trait.Form.html#associatedtype.Type"; " title=";
         "type scale_info::form::Form::Type";
         ">Type</a>: Encode,<br>&nbsp;&nbsp;&nbsp;&nbsp;T::<a class="; "associatedtype"; " href=";
         "scale_info/form/trait.Form.html#associatedtype.Type"; " title=";
         "type scale_info::form::Form::Type";
         ">Type</a>: Encode,<br>&nbsp;&nbsp;&nbsp;&nbsp;T::<a class="; "associatedtype"; " href=";
         "scale_info/form/trait.Form.html#associatedtype.Type"; " title=";
         "type scale_info::form::Form::Type";
         ">Type</a>: Encode,<br>&nbsp;&nbsp;&nbsp;&nbsp;T::<a class="; "associatedtype"; " href=";
         "scale_info/form/trait.Form.html#associatedtype.Type"; " title=";
         "type scale_info::form::Form::Type"; ">Type</a>: Encode,&nbsp;</span>"])
      false
      ["scale_info::ty::TypeDefBitSequence"]
  ].

(** The registry once the three assignments are done (lines 1 to 4). *)
Definition implementors : value :=
  VObj (<["scale_info" := VArr scale_info_impls]>
       (<["ink_primitives" := VArr ink_primitives_impls]>
       (<["ink_env" := VArr ink_env_impls]> ∅))).

(** ** The world the script runs in *)

(** What the script does to its surroundings, in the order it does it: it
    reads a property of [window], it writes one, it calls a host function. *)
Inductive event : Type :=
  | EvRead (k : string)
  | EvWrite (k : string) (v : value)
  | EvCall (f : string) (args : list value).

(** The properties of the global object and the events so far (the latest
    last). *)
Record world : Type := World {
  window : gmap string value;
  trace : list event
}.

Inductive error : Type :=
  | TypeError.

Inductive outcome (A : Type) : Type :=
  | Done (a : A)
  | Throw (e : error).
Arguments Done {A} a.
Arguments Throw {A} e.

(** A computation either completes or throws; the world it leaves is kept
    in both cases, as an exception undoes nothing. *)
Definition js (A : Type) : Type := world → outcome A * world.

Definition ret {A} (a : A) : js A := λ w, (Done a, w).

Definition throw {A} (e : error) : js A := λ w, (Throw e, w).

Definition bind {A B} (m : js A) (k : A → js B) : js B :=
  λ w, match m w with
       | (Done a, w') => k a w'
       | (Throw e, w') => (Throw e, w')
       end.

Notation "'let*' x ':=' m 'in' k" := (bind m (λ x, k))
  (at level 10, x name, m at level 100, k at level 200).

Definition emit (e : event) (w : world) : world :=
  World (window w) (trace w ++ [e]).

(** [o.k] on a map of properties: a missing property reads as [undefined]. *)
Definition read (k : string) (props : gmap string value) : value :=
  default VUndefined (props !! k).

(** [window.k] *)
Definition get_global (k : string) : js value :=
  λ w, (Done (read k (window w)), emit (EvRead k) w).

(** [window.k = v] *)
Definition set_global (k : string) (v : value) : js unit :=
  λ w, (Done tt, emit (EvWrite k v) (World (<[k := v]> (window w)) (trace w))).

(** [f(args);] as an expression statement.  Calling what is not a function
    is a [TypeError].  The call of a host function is recorded; what the
    host does in it is its own business, and whatever it returns is
    dropped by the statement.  A host function that itself throws, or
    that writes to [window], is not represented: here a call of a function
    returns and leaves [window] alone, so what is proved of a call is
    proved of the script's own doing. *)
Definition call (f : value) (args : list value) : js unit :=
  match f with
  | VFun h => λ w, (Done tt, emit (EvCall h args) w)
  | _ => throw TypeError
  end.

(** [o[k] = v] for the object held by a local variable.  The variable is the
    only reference to the object while the script assigns to it, so the
    update in place is the update of the variable.  On [undefined] and
    [null] the assignment throws; on a primitive it is ignored (the script
    is not in strict mode).  Arrays and functions carry no named properties
    in this embedding, and the script sets none on them. *)
Definition set_prop (o : value) (k : string) (v : value) : js value :=
  match o with
  | VObj props => ret (VObj (<[k := v]> props))
  | VUndefined | VNull => throw TypeError
  | _ => ret o
  end.

(** ** The script *)

(** Line 5:
    [if (window.register_implementors) {window.register_implementors(implementors);}
     else {window.pending_implementors = implementors;}] *)
Definition publish (registry : value) : js unit :=
  let* hook := get_global "register_implementors" in
  if truthy hook then
    let* f := get_global "register_implementors" in
    call f [registry]
  else
    set_global "pending_implementors" registry.

(** A statement of the function body takes the value of the local variable
    [implementors] and gives its value afterwards. *)
Definition stmt : Type := value → js value.

(** [var implementors = {};] *)
Definition s_init : stmt := λ _, ret (VObj ∅).

(** [implementors[k] = [...];] *)
Definition s_assign (k : string) (impls : list value) : stmt :=
  λ obj, set_prop obj k (VArr impls).

(** [if (window.register_implementors) {...} else {...}] *)
Definition s_publish : stmt :=
  λ obj, let* _ := publish obj in ret obj.

Definition construction : list stmt :=
  [ s_init;
    s_assign "ink_env" ink_env_impls;
    s_assign "ink_primitives" ink_primitives_impls;
    s_assign "scale_info" scale_info_impls ].

Definition body : list stmt := construction ++ [s_publish].

(** Statements in sequence; the first exception ends the run. *)
Fixpoint run (ss : list stmt) (local : value) : js value :=
  match ss with
  | [] => ret local
  | s :: ss' => let* local' := s local in run ss' local'
  end.

(** Lines 1 to 4, the registry under construction.  The variable is
    declared by [var], so it is [undefined] when the function is entered. *)
Definition load : js value := run construction VUndefined.

(** [(function() {...})()]: the function returns nothing. *)
Definition script : js unit := let* _ := run body VUndefined in ret tt.

(** The script on a page whose global object has the properties [win]. *)
Definition fresh (win : gmap string value) : world := World win [].

Definition run_script (win : gmap string value) : outcome unit * world :=
  script (fresh win).

(** ** The hook and the pending slot *)

(** The page has installed its hook: the property holds a function. *)
Definition hook_installed (win : gmap string value) : Prop :=
  callable (read "register_implementors" win) = true.

(** The hook is not there: the property is missing or [undefined] (or holds
    another value that the [if] takes for false). *)
Definition hook_absent (win : gmap string value) : Prop :=
  truthy (read "register_implementors" win) = false.

Definition pending_slot (w : world) : value :=
  read "pending_implementors" (window w).

(** The calls on a trace: which function, with which arguments. *)
Definition calls (tr : list event) : list (string * list value) :=
  omap (λ e, match e with EvCall f args => Some (f, args) | _ => None end) tr.

(** The writes on a trace: which property, which value. *)
Definition writes (tr : list event) : list (string * value) :=
  omap (λ e, match e with EvWrite k v => Some (k, v) | _ => None end) tr.

(** The properties read on a trace. *)
Definition reads (tr : list event) : list string :=
  omap (λ e, match e with EvRead k => Some k | _ => None end) tr.

(** The two ways to publish: call the hook, write the pending slot. *)
Definition is_publish (e : event) : bool :=
  match e with
  | EvCall _ _ => true
  | EvWrite k _ => String.eqb k "pending_implementors"
  | EvRead _ => false
  end.

Definition publications (tr : list event) : list event :=
  List.filter is_publish tr.

(** ** The shape of a registry *)

(** The number of characters of the display text of a descriptor. *)
Definition text_length (d : value) : nat :=
  match d with
  | VObj props =>
      match props !! "text" with
      | Some (VStr s) => String.length s
      | _ => 0
      end
  | _ => 0
  end.

(** A letter, a digit or an underscore. *)
Definition ident_char (c : ascii) : bool :=
  let n := nat_of_ascii c in
  ((65 <=? n)%nat && (n <=? 90)%nat) || ((97 <=? n)%nat && (n <=? 122)%nat)
  || ((48 <=? n)%nat && (n <=? 57)%nat) || (n =? 95)%nat.

Fixpoint all_chars (p : ascii → bool) (s : string) : bool :=
  match s with
  | EmptyString => true
  | String c s' => p c && all_chars p s'
  end.

(** A module or item name: not empty, made of identifier characters. *)
Definition is_ident (s : string) : bool :=
  negb (String.eqb s EmptyString) && all_chars ident_char s.

(** The segments of a path, cut at every [::]. *)
Fixpoint segments_from (seg : string) (s : string) : list string :=
  match s with
  | EmptyString => [seg]
  | String c1 (String c2 s' as s1) =>
      if Ascii.eqb c1 ":"%char && Ascii.eqb c2 ":"%char
      then seg :: segments_from EmptyString s'
      else segments_from (seg +:+ String c1 EmptyString) s1
  | String c1 EmptyString => [seg +:+ String c1 EmptyString]
  end.

Definition segments (s : string) : list string := segments_from EmptyString s.

(** A fully-qualified type path: a crate name, then at least one more name,
    separated by [::]. *)
Definition type_path (s : string) : bool :=
  let segs := segments s in
  (2 <=? length segs)%nat && forallb is_ident segs.

Definition is_type_path (v : value) : bool :=
  match v with VStr s => type_path s | _ => false end.

Definition is_string (v : value) : bool :=
  match v with VStr _ => true | _ => false end.

(** The data-model invariant on one descriptor: its [types] property is a
    sequence of type paths with at least one element. *)
Definition descriptor_ok (d : value) : bool :=
  match d with
  | VObj props =>
      match props !! "types" with
      | Some (VArr (t :: ts)) => forallb is_type_path (t :: ts)
      | _ => false
      end
  | _ => false
  end.

(** The data-model invariant on one binding of the registry. *)
Definition binding_ok (kv : string * value) : bool :=
  is_ident kv.1 &&
  match kv.2 with
  | VArr ds => forallb descriptor_ok ds
  | _ => false
  end.

Definition registry_ok (r : value) : bool :=
  match r with
  | VObj m => forallb binding_ok (map_to_list m)
  | _ => false
  end.

(** The same invariant, said with lookups. *)
Definition registry_invariant (r : value) : Prop :=
  ∃ m, r = VObj m ∧
    ∀ k v, m !! k = Some v →
      is_ident k = true ∧ k ≠ EmptyString ∧
      ∃ ds, v = VArr ds ∧
        ∀ d, d ∈ ds →
          ∃ props t ts, d = VObj props ∧
            props !! "types" = Some (VArr (t :: ts)) ∧
            ∀ p, p ∈ t :: ts → ∃ s, p = VStr s ∧ type_path s = true.

(** A descriptor record: exactly the three properties, of the right kinds. *)
Definition record_ok (d : value) : bool :=
  match d with
  | VObj props =>
      bool_decide (dom props = ({["text"; "synthetic"; "types"]} : gset string))
      && match props !! "text" with Some (VStr _) => true | _ => false end
      && match props !! "synthetic" with Some (VBool _) => true | _ => false end
      && match props !! "types" with
         | Some (VArr ts) => forallb is_string ts
         | _ => false
         end
  | _ => false
  end.

Definition is_record (d : value) : Prop :=
  ∃ props text synthetic types,
    d = VObj props ∧
    dom props = ({["text"; "synthetic"; "types"]} : gset string) ∧
    props !! "text" = Some (VStr text) ∧
    props !! "synthetic" = Some (VBool synthetic) ∧
    props !! "types" = Some (VArr (VStr <$> types)).

(** ** The script, one statement at a time *)

(** Where the script is: the statements still to run, the local variable,
    the world. *)
Record config : Type := Config {
  rest : list stmt;
  local : value;
  env : world
}.

(** One statement runs; an exception that nothing catches ends the
    script. *)
Inductive step : config → config → Prop :=
  | step_done s ss l w l' w' :
      s l w = (Done l', w') →
      step (Config (s :: ss) l w) (Config ss l' w')
  | step_throw s ss l w e w' :
      s l w = (Throw e, w') →
      step (Config (s :: ss) l w) (Config [] l w').

Definition start (win : gmap string value) : config :=
  Config body VUndefined (fresh win).

(** The two states of the loader. *)
Inductive phase : Type :=
  | UNPUBLISHED
  | PUBLISHED.

(** Published: the hook has been called or the pending slot written. *)
Definition phase_of (c : config) : phase :=
  match publications (trace (env c)) with
  | [] => UNPUBLISHED
  | _ :: _ => PUBLISHED
  end.

(** A statement that leaves the world alone. *)
Definition silent (s : stmt) : Prop := ∀ l w, (s l w).2 = w.

(** What holds of every place the script can be in: either nothing has
    happened yet and the publishing statement is still to come, after
    statements that leave the world alone; or the script is over, having
    published at most once. *)
Definition loader_inv (c : config) : Prop :=
  (trace (env c) = [] ∧
   ∃ pre, rest c = pre ++ [s_publish] ∧ Forall silent pre)
  ∨ (rest c = [] ∧ length (publications (trace (env c))) ≤ 1).

(** ** The script included more than once *)

(** Line 5 run once for each registry of a list, in order: what a page gets
    that includes several scripts of this kind, or this one several times.
    An exception ends the sequence. *)
Fixpoint publish_all (registries : list value) : js unit :=
  match registries with
  | [] => ret tt
  | r :: rs => let* _ := publish r in publish_all rs
  end.

(** ** The registry while it is built *)

(** The value of the local variable when [k] statements have run. *)
Definition partial_registry (k : nat) : value :=
  match k with
  | 0 => VUndefined
  | 1 => VObj ∅
  | 2 => VObj (<["ink_env" := VArr ink_env_impls]> ∅)
  | 3 => VObj (<["ink_primitives" := VArr ink_primitives_impls]>
              (<["ink_env" := VArr ink_env_impls]> ∅))
  | _ => implementors
  end.

(** Where the script is when [k] statements have run, [k] at most 4: the
    page is as it was found. *)
Definition building (win : gmap string value) (k : nat) : config :=
  Config (drop k body) (partial_registry k) (fresh win).

(** The places the script can be in, one by one. *)
Definition reach_inv (win : gmap string value) (c : config) : Prop :=
  (∃ k, k ≤ 4 ∧ c = building win k)
  ∨ (rest c = [] ∧ local c = implementors ∧ env c = (run_script win).2).

(** ** What the descriptors say *)

(** The crate a type path starts with. *)
Definition crate_of (path : string) : option string := head (segments path).

(** The type paths of a descriptor. *)
Definition type_paths (d : value) : list string :=
  match d with
  | VObj props =>
      match props !! "types" with
      | Some (VArr ts) =>
          omap (λ t, match t with VStr s => Some s | _ => None end) ts
      | _ => []
      end
  | _ => []
  end.

(** All the type paths of a registry. *)
Definition registry_paths (r : value) : list string :=
  match r with
  | VObj m =>
      map_to_list m ≫= λ kv,
        match kv.2 with
        | VArr ds => ds ≫= type_paths
        | _ => []
        end
  | _ => []
  end.

(** A descriptor listed under [crate]: found by the exact analysis, for one
    type, which lives in that crate. *)
Definition entry_ok (crate : string) (d : value) : bool :=
  match d with
  | VObj props =>
      match props !! "synthetic", props !! "types" with
      | Some (VBool false), Some (VArr [VStr s]) =>
          match crate_of s with
          | Some c => String.eqb c crate
          | None => false
          end
      | _, _ => false
      end
  | _ => false
  end.

Definition entries_ok (kv : string * value) : bool :=
  match kv.2 with
  | VArr ds => forallb (entry_ok kv.1) ds
  | _ => false
  end.

(** The three cases of the hook property [h]: a function, another value
    that passes the [if], a value that does not. *)
Ltac hook_cases h :=
  let Ht := fresh "Ht" in
  let Hc := fresh "Hc" in
  destruct (truthy h) eqn:Ht; [destruct (callable h) eqn:Hc|].

(** * Properties *)

(** ** What one call of [publish] does *)

Section Publish.
Variable R : value.
Variable w : world.

(** The hook holds a function: two reads, one call, no write. *)
Lemma publish_function f :
  read "register_implementors" (window w) = VFun f →
  publish R w =
    (Done tt,
     World (window w)
       (trace w ++ [EvRead "register_implementors";
                    EvRead "register_implementors";
                    EvCall f [R]])).
Proof.
  intros Hf.
  cbv [publish bind get_global emit]. cbn [window trace].
  rewrite Hf. cbn [truthy window trace]. rewrite Hf.
  cbv [call emit]. cbn [window trace]. by rewrite <- !app_assoc.
Qed.

(** The [if] takes the hook for false: one read, one write, no call. *)
Lemma publish_falsy :
  truthy (read "register_implementors" (window w)) = false →
  publish R w =
    (Done tt,
     World (<["pending_implementors" := R]> (window w))
       (trace w ++ [EvRead "register_implementors";
                    EvWrite "pending_implementors" R])).
Proof.
  intros Hf.
  cbv [publish bind get_global set_global emit]. cbn [window trace].
  rewrite Hf. cbn [window trace]. by rewrite <- !app_assoc.
Qed.

(** The hook holds something that passes the [if] and is no function:
    the call throws, after two reads and nothing else. *)
Lemma publish_not_callable :
  truthy (read "register_implementors" (window w)) = true →
  callable (read "register_implementors" (window w)) = false →
  publish R w =
    (Throw TypeError,
     World (window w)
       (trace w ++ [EvRead "register_implementors";
                    EvRead "register_implementors"])).
Proof.
  intros Ht Hc.
  cbv [publish bind get_global emit]. cbn [window trace].
  rewrite Ht. cbn [window trace].
  destruct (read "register_implementors" (window w)); try discriminate;
    cbv [call throw]; by rewrite <- !app_assoc.
Qed.
End Publish.

(** A page that keeps a number where the hook should be: the [if] takes it
    for a hook, the call throws, nothing is published. *)
Example publish_number_hook :
  publish VNull (fresh {["register_implementors" := VNum 1]})
  = (Throw TypeError,
     World {["register_implementors" := VNum 1]}
       [EvRead "register_implementors"; EvRead "register_implementors"]).
Proof. reflexivity. Qed.

Lemma callable_function v : callable v = true → ∃ f, v = VFun f.
Proof. destruct v; try discriminate. eauto. Qed.

Lemma callable_truthy v : callable v = true → truthy v = true.
Proof. by destruct v. Qed.

Example truthy_examples :
  truthy VUndefined = false ∧ truthy VNull = false ∧
  truthy (VBool false) = false ∧ truthy (VNum 0) = false ∧
  truthy (VStr EmptyString) = false ∧
  truthy (VStr "0") = true ∧ truthy (VArr []) = true ∧
  truthy (VObj ∅) = true ∧ truthy (VFun "register") = true.
Proof. by vm_compute. Qed.

(** How the projections of a trace go through an append. *)
Lemma calls_app tr1 tr2 : calls (tr1 ++ tr2) = calls tr1 ++ calls tr2.
Proof. apply omap_app. Qed.

Lemma writes_app tr1 tr2 : writes (tr1 ++ tr2) = writes tr1 ++ writes tr2.
Proof. apply omap_app. Qed.

Lemma reads_app tr1 tr2 : reads (tr1 ++ tr2) = reads tr1 ++ reads tr2.
Proof. apply omap_app. Qed.

Lemma publications_app tr1 tr2 :
  publications (tr1 ++ tr2) = publications tr1 ++ publications tr2.
Proof. apply List.filter_app. Qed.

Lemma read_insert_eq k v (props : gmap string value) :
  read k (<[k := v]> props) = v.
Proof. unfold read. by rewrite lookup_insert_eq. Qed.

Lemma read_insert_ne k k' v (props : gmap string value) :
  k ≠ k' → read k' (<[k := v]> props) = read k' props.
Proof. intros. unfold read. by rewrite lookup_insert_ne. Qed.

(** ** Publishing through the hook, publishing into the slot *)

(** C1. With the hook installed, [publish R] returns after calling the
    function held by [window.register_implementors] exactly once: the trace
    gains one call, of that function, whose only argument is [R] itself.
    Nothing is written. *)
Theorem publish_calls_hook_once (R : value) (w : world) :
  hook_installed (window w) →
  ∃ f w',
    read "register_implementors" (window w) = VFun f ∧
    publish R w = (Done tt, w') ∧
    calls (trace w') = calls (trace w) ++ [(f, [R])] ∧
    writes (trace w') = writes (trace w) ∧
    window w' = window w.
Proof.
  intros [f Hf]%callable_function.
  eexists f, _. split; [done|].
  split; [by apply publish_function|].
  cbn [trace window]. by rewrite calls_app, writes_app, !app_nil_r.
Qed.

Lemma publish_calls_hook_once_witness :
  let page : world := fresh {["register_implementors" := VFun "register"]} in
  let R : value := VObj {["modA" := VArr [descriptor "impl A for B" false ["modA::B"]]]} in
  hook_installed (window page) ∧
  ∃ f w',
    read "register_implementors" (window page) = VFun f ∧
    publish R page = (Done tt, w') ∧
    calls (trace w') = calls (trace page) ++ [(f, [R])] ∧
    writes (trace w') = writes (trace page) ∧
    window w' = window page.
Proof.
  intros page R.
  assert (Hi : hook_installed (window page)) by reflexivity.
  split; [exact Hi|]. exact (publish_calls_hook_once R page Hi).
Defined.

(** C2. With the hook absent, [publish R] leaves [R] in
    [window.pending_implementors] and calls nothing. *)
Theorem publish_buffers_when_absent (R : value) (w : world) :
  hook_absent (window w) →
  ∃ w',
    publish R w = (Done tt, w') ∧
    pending_slot w' = R ∧
    calls (trace w') = calls (trace w).
Proof.
  intros Ha. eexists. split; [by apply publish_falsy|].
  unfold pending_slot. cbn [trace window].
  by rewrite read_insert_eq, calls_app, app_nil_r.
Qed.

Lemma publish_buffers_when_absent_witness :
  let R : value := VObj {["modA" := VArr [descriptor "impl A for B" false ["modA::B"]]]} in
  hook_absent (window (fresh ∅)) ∧
  ∃ w',
    publish R (fresh ∅) = (Done tt, w') ∧
    pending_slot w' = R ∧
    calls (trace w') = calls (trace (fresh ∅)).
Proof.
  intros R.
  assert (Ha : hook_absent (window (fresh ∅))) by reflexivity.
  split; [exact Ha|]. exact (publish_buffers_when_absent R (fresh ∅) Ha).
Defined.

(** C3, as amended.  When the hook property holds a function (the hook is
    installed) or a value the [if] takes for false (the hook is absent), one
    call of [publish] does exactly one of the two things: it calls the hook
    and writes nothing, the pending slot staying as it was; or it writes the
    pending slot and calls nothing.  The other states of the property, a
    value that passes the [if] and is no function, are left out: there
    [publish] does neither, as the counterexample below shows. *)
Theorem publish_exactly_one_effect (R : value) (w : world) :
  hook_installed (window w) ∨ hook_absent (window w) →
  ∃ w' evs,
    publish R w = (Done tt, w') ∧
    trace w' = trace w ++ evs ∧
    length (publications evs) = 1 ∧
    ( (∃ f, calls evs = [(f, [R])]) ∧ writes evs = [] ∧
      window w' = window w ∧ pending_slot w' = pending_slot w
    ∨ calls evs = [] ∧ writes evs = [("pending_implementors", R)] ∧
      window w' = <["pending_implementors" := R]> (window w) ).
Proof.
  intros [[f Hf]%callable_function | Ha].
  - eexists _, _. split; [by apply publish_function|].
    cbn [trace window]. split; [done|]. split; [done|].
    left. unfold pending_slot. cbn [window]. eauto.
  - eexists _, _. split; [by apply publish_falsy|].
    cbn [trace window]. split; [done|]. split; [done|].
    by right.
Qed.

Lemma publish_exactly_one_effect_witness :
  let page : world := fresh {["register_implementors" := VFun "register"]} in
  let R : value := VObj {["modA" := VArr []]} in
  (hook_installed (window page) ∨ hook_absent (window page)) ∧
  ∃ w' evs,
    publish R page = (Done tt, w') ∧
    trace w' = trace page ++ evs ∧
    length (publications evs) = 1 ∧
    ( (∃ f, calls evs = [(f, [R])]) ∧ writes evs = [] ∧
      window w' = window page ∧ pending_slot w' = pending_slot page
    ∨ calls evs = [] ∧ writes evs = [("pending_implementors", R)] ∧
      window w' = <["pending_implementors" := R]> (window page) ).
Proof.
  intros page R.
  assert (H : hook_installed (window page) ∨ hook_absent (window page))
    by (left; reflexivity).
  split; [exact H|]. exact (publish_exactly_one_effect R page H).
Defined.

(** C3 as it is worded, for every state of the hook property, fails: on a
    page that keeps the number 1 in [window.register_implementors] the [if]
    passes, the call throws, and [publish] has neither called anything nor
    written the pending slot. *)
Lemma publish_neither_effect :
  let page : world := fresh {["register_implementors" := VNum 1]} in
  let R : value := VObj {["modA" := VArr []]} in
  publish R page
    = (Throw TypeError,
       World {["register_implementors" := VNum 1]}
         [EvRead "register_implementors"; EvRead "register_implementors"]) ∧
  publications (trace (publish R page).2) = [] ∧
  calls (trace (publish R page).2) = [] ∧
  writes (trace (publish R page).2) = [] ∧
  window (publish R page).2 !! "pending_implementors" = None ∧
  ¬ (∃ w' evs,
       (publish R page).2 = w' ∧
       trace w' = trace page ++ evs ∧
       length (publications evs) = 1).
Proof.
  intros page R.
  assert (Hrun : publish R page
            = (Throw TypeError,
               World {["register_implementors" := VNum 1]}
                 [EvRead "register_implementors";
                  EvRead "register_implementors"])) by reflexivity.
  split; [exact Hrun|]. rewrite Hrun. cbn [snd trace window].
  do 4 (split; [reflexivity|]).
  intros (w' & evs & <- & Htrace & Hone).
  cbn [trace page fresh app] in Htrace. subst evs. discriminate.
Qed.

(** A registry that breaks the invariant of the data model: an empty key,
    a descriptor without any type path. *)
Example malformed_registry :
  let R : value := VObj {[EmptyString := VArr [descriptor "impl" false []]]} in
  registry_ok R = false ∧ ¬ registry_invariant R.
Proof.
  intros R. split; [by vm_compute|].
  intros (m & [= <-] & Hinv).
  destruct (Hinv EmptyString (VArr [descriptor "impl" false []]))
    as (_ & Hne & _); [apply lookup_singleton_eq | done].
Qed.



(** C7. Two calls in a row.  With the hook absent the slot ends up holding
    the second value; with the hook installed the hook is called twice,
    once with each value, in order. *)
Theorem publish_twice (R1 R2 : value) (w : world) :
  (hook_absent (window w) →
     ∃ w1 w2,
       publish R1 w = (Done tt, w1) ∧ pending_slot w1 = R1 ∧
       hook_absent (window w1) ∧
       publish R2 w1 = (Done tt, w2) ∧ pending_slot w2 = R2 ∧
       (let* _ := publish R1 in publish R2) w = (Done tt, w2)) ∧
  (hook_installed (window w) →
     ∃ f w1 w2,
       read "register_implementors" (window w) = VFun f ∧
       publish R1 w = (Done tt, w1) ∧
       calls (trace w1) = calls (trace w) ++ [(f, [R1])] ∧
       hook_installed (window w1) ∧
       publish R2 w1 = (Done tt, w2) ∧
       calls (trace w2) = calls (trace w) ++ [(f, [R1]); (f, [R2])] ∧
       calls (trace w2) ≠ calls (trace w1) ∧
       (let* _ := publish R1 in publish R2) w = (Done tt, w2)).
Proof.
  split.
  - intros Ha.
    pose proof (publish_falsy R1 w Ha) as H1.
    set (w1 := World (<["pending_implementors" := R1]> (window w)) _) in H1.
    assert (Ha1 : hook_absent (window w1)).
    { unfold hook_absent. subst w1. cbn [window].
      by rewrite read_insert_ne. }
    pose proof (publish_falsy R2 w1 Ha1) as H2.
    eexists w1, _. split; [exact H1|].
    split; [apply read_insert_eq|]. split; [exact Ha1|].
    split; [exact H2|]. split; [apply read_insert_eq|].
    unfold bind. by rewrite H1.
  - intros [f Hf]%callable_function.
    pose proof (publish_function R1 w f Hf) as H1.
    set (w1 := World (window w) _) in H1.
    assert (Hf1 : read "register_implementors" (window w1) = VFun f) by done.
    pose proof (publish_function R2 w1 f Hf1) as H2.
    eexists f, w1, _. split; [exact Hf|]. split; [exact H1|].
    split; [subst w1; cbn [trace]; by rewrite calls_app|].
    split; [unfold hook_installed; by rewrite Hf1|].
    split; [exact H2|].
    assert (Hc : calls (trace (World (window w1)
                (trace w1 ++ [EvRead "register_implementors";
                              EvRead "register_implementors";
                              EvCall f [R2]])))
                 = calls (trace w1) ++ [(f, [R2])]).
    { cbn [trace]. by rewrite calls_app. }
    split; [|split].
    + rewrite Hc. subst w1. cbn [trace]. by rewrite !calls_app, <- app_assoc.
    + rewrite Hc. intros Heq%(f_equal length).
      rewrite length_app in Heq. cbn in Heq. lia.
    + unfold bind. by rewrite H1.
Qed.

Lemma publish_twice_witness :
  let page : world := fresh {["register_implementors" := VFun "register"]} in
  let R1 : value := VObj {["modA" := VArr []]} in
  let R2 : value := VObj {["modB" := VArr []]} in
  (∃ w2, (let* _ := publish R1 in publish R2) (fresh ∅) = (Done tt, w2) ∧
         pending_slot w2 = R2) ∧
  (∃ w2, (let* _ := publish R1 in publish R2) page = (Done tt, w2) ∧
         calls (trace w2) = [("register", [R1]); ("register", [R2])]).
Proof.
  intros page R1 R2. split.
  - destruct (publish_twice R1 R2 (fresh ∅)) as [Ha _].
    destruct (Ha eq_refl) as (w1 & w2 & _ & _ & _ & _ & Hs & Hseq).
    exists w2. by split.
  - destruct (publish_twice R1 R2 page) as [_ Hi].
    destruct (Hi eq_refl) as (f & w1 & w2 & Hf & _ & _ & _ & _ & Hc & _ & Hseq).
    exists w2. split; [exact Hseq|].
    rewrite Hc. by injection Hf as <-.
Defined.

(** ** The registry built by lines 1 to 4 *)

(** Building the registry reads and writes nothing, cannot throw, and gives
    the same value whatever the page. *)
Lemma load_constant w : load w = (Done implementors, w).
Proof. reflexivity. Qed.

(** The display texts have the lengths they have in the script, the
    quotes put back by [html] counted. *)
Example text_lengths :
  text_length <$> ink_env_impls = [246; 160; 455; 260; 126; 126; 118; 103] ∧
  text_length <$> ink_primitives_impls = [114] ∧
  text_length <$> scale_info_impls =
    [812; 145; 854; 2525; 896; 860; 1799; 2038; 1301; 2673; 139; 660; 908;
     669; 666; 1028].
Proof. by vm_compute. Qed.

Example segments_examples :
  segments "scale_info::ty::Type" = ["scale_info"; "ty"; "Type"] ∧
  segments "Key" = ["Key"] ∧
  segments "a::" = ["a"; EmptyString] ∧
  segments "a:b" = ["a:b"].
Proof. by vm_compute. Qed.

Example type_path_examples :
  type_path "ink_primitives::key::Key" = true ∧
  type_path "Key" = false ∧
  type_path "ink_env::" = false ∧
  type_path "ink env::Hash" = false.
Proof. by vm_compute. Qed.

Lemma forallb_elem_of {A} (p : A → bool) (l : list A) x :
  forallb p l = true → x ∈ l → p x = true.
Proof.
  intros Hall Hx. apply list_elem_of_In in Hx.
  by apply (proj1 (forallb_forall p l) Hall).
Qed.

Lemma all_strings ts :
  forallb is_string ts = true → ∃ types : list string, ts = VStr <$> types.
Proof.
  induction ts as [|t ts IH]; cbn [forallb]; intros H.
  - by exists [].
  - apply andb_true_iff in H as [Ht Hts].
    destruct t; try discriminate.
    destruct (IH Hts) as [types ->]. by exists (s :: types).
Qed.

Lemma record_ok_sound d : record_ok d = true → is_record d.
Proof.
  destruct d as [| | | | | |props|]; try discriminate.
  unfold record_ok. rewrite !andb_true_iff, bool_decide_eq_true.
  intros [[[Hdom Htext] Hsyn] Htypes].
  destruct (props !! "text") as [[| | | |text| | |]|] eqn:E1; try discriminate.
  destruct (props !! "synthetic") as [[| |syn| | | | |]|] eqn:E2; try discriminate.
  destruct (props !! "types") as [[| | | | |ts| |]|] eqn:E3; try discriminate.
  destruct (all_strings ts Htypes) as [types ->].
  by exists props, text, syn, types.
Qed.

Lemma is_ident_nonempty s : is_ident s = true → s ≠ EmptyString.
Proof. by intros H ->. Qed.

Lemma descriptor_ok_sound d :
  descriptor_ok d = true →
  ∃ props t ts, d = VObj props ∧
    props !! "types" = Some (VArr (t :: ts)) ∧
    ∀ p, p ∈ t :: ts → ∃ s, p = VStr s ∧ type_path s = true.
Proof.
  destruct d as [| | | | | |props|]; try discriminate.
  unfold descriptor_ok.
  destruct (props !! "types") as [[| | | | |[|t ts]| |]|] eqn:E; try discriminate.
  intros Hall. exists props, t, ts. split; [done|]. split; [done|].
  intros p Hp. pose proof (forallb_elem_of _ _ _ Hall Hp) as Hpath.
  destruct p; try discriminate. eauto.
Qed.

Lemma registry_ok_sound r : registry_ok r = true → registry_invariant r.
Proof.
  destruct r as [| | | | | |m|]; try discriminate.
  unfold registry_ok. intros Hall. exists m. split; [done|].
  intros k v Hkv. apply elem_of_map_to_list in Hkv.
  pose proof (forallb_elem_of _ _ _ Hall Hkv) as Hb.
  unfold binding_ok in Hb. cbn [fst snd] in Hb.
  apply andb_true_iff in Hb as [Hk Hv].
  split; [done|]. split; [by apply is_ident_nonempty|].
  destruct v as [| | | | |ds| |]; try discriminate.
  exists ds. split; [done|].
  intros d Hd. apply descriptor_ok_sound. by apply (forallb_elem_of _ _ _ Hv).
Qed.

(** C5. [load] depends on nothing and touches nothing: on every page it
    returns the same mapping, whose keys are exactly [ink_env],
    [ink_primitives] and [scale_info], bound to sequences of 8, 1 and 16
    records, each record having exactly the properties [text] (a string),
    [synthetic] (a boolean) and [types] (a sequence of strings). *)
Theorem load_registry_shape :
  ∃ m l1 l2 l3,
    (∀ w, load w = (Done (VObj m), w)) ∧
    dom m = ({["ink_env"; "ink_primitives"; "scale_info"]} : gset string) ∧
    m !! "ink_env" = Some (VArr l1) ∧ length l1 = 8 ∧
    m !! "ink_primitives" = Some (VArr l2) ∧ length l2 = 1 ∧
    m !! "scale_info" = Some (VArr l3) ∧ length l3 = 16 ∧
    ∀ d, d ∈ l1 ++ l2 ++ l3 → is_record d.
Proof.
  eexists _, ink_env_impls, ink_primitives_impls, scale_info_impls.
  split; [exact load_constant|].
  split; [rewrite !dom_insert_L, dom_empty_L; set_solver|].
  do 6 (split; [reflexivity|]).
  intros d Hd. apply record_ok_sound.
  apply (forallb_elem_of record_ok
           (ink_env_impls ++ ink_primitives_impls ++ scale_info_impls));
    [by vm_compute | exact Hd].
Qed.

(** C4. The registry that [load] returns satisfies the invariant of the
    data model: every key is a module name, hence not empty, and in every
    descriptor under every key the [types] property is a sequence with at
    least one element, all of its elements fully-qualified type paths. *)
Theorem load_registry_invariant :
  ∃ r, (∀ w, load w = (Done r, w)) ∧ registry_invariant r.
Proof.
  exists implementors. split; [exact load_constant|].
  apply registry_ok_sound. by vm_compute.
Qed.

(** ** The whole script *)

Lemma run_app ss1 ss2 l w :
  run (ss1 ++ ss2) l w = (let* l' := run ss1 l in run ss2 l') w.
Proof.
  revert l w. induction ss1 as [|s ss1 IH]; intros l w; [done|].
  cbn [app run]. unfold bind.
  destruct (s l w) as [[l1|e] w1]; [|done].
  by rewrite IH.
Qed.

(** The script is [publish] applied to the constant registry. *)
Lemma script_publish w : script w = publish implementors w.
Proof.
  unfold script, body. unfold bind at 1. rewrite run_app.
  unfold bind at 1. change (run construction VUndefined) with load.
  rewrite load_constant. cbn [run]. unfold s_publish, bind, ret.
  by destruct (publish implementors w) as [[[]|e] w'].
Qed.

(** The three ways the script can go, told apart by what the hook
    property holds. *)
Lemma script_cases win :
  (∃ f, read "register_implementors" win = VFun f ∧
        run_script win =
          (Done tt,
           World win [EvRead "register_implementors";
                      EvRead "register_implementors";
                      EvCall f [implementors]]))
  ∨ (truthy (read "register_implementors" win) = true ∧
     callable (read "register_implementors" win) = false ∧
     run_script win =
       (Throw TypeError,
        World win [EvRead "register_implementors";
                   EvRead "register_implementors"]))
  ∨ (truthy (read "register_implementors" win) = false ∧
     run_script win =
       (Done tt,
        World (<["pending_implementors" := implementors]> win)
          [EvRead "register_implementors";
           EvWrite "pending_implementors" implementors])).
Proof.
  unfold run_script. rewrite script_publish.
  hook_cases (read "register_implementors" win).
  - left. apply callable_function in Hc as [f Hf]. exists f.
    split; [done|]. by rewrite (publish_function _ _ f).
  - right; left. do 2 (split; [done|]). by rewrite publish_not_callable.
  - right; right. split; [done|]. by rewrite publish_falsy.
Qed.

(** The script on a page without the hook, and on a page with it. *)
Example run_script_bare_page :
  run_script ∅
  = (Done tt,
     World {["pending_implementors" := implementors]}
       [EvRead "register_implementors";
        EvWrite "pending_implementors" implementors]).
Proof. reflexivity. Qed.

Example run_script_hooked_page :
  run_script {["register_implementors" := VFun "register"]}
  = (Done tt,
     World {["register_implementors" := VFun "register"]}
       [EvRead "register_implementors";
        EvRead "register_implementors";
        EvCall "register" [implementors]]).
Proof. reflexivity. Qed.

(** C9. The script keeps to the hook and the slot.  The only property of
    [window] it reads is [register_implementors]; the only one it writes is
    [pending_implementors], at most once; every other property is after the
    run what it was before, and so is [window.implementors]: the local
    variable gives rise to no global of that name. *)
Theorem script_frame (win : gmap string value) :
  ∃ o w',
    run_script win = (o, w') ∧
    (∀ k, k ∈ reads (trace w') → k = "register_implementors") ∧
    (∀ k v, (k, v) ∈ writes (trace w') → k = "pending_implementors") ∧
    length (writes (trace w')) ≤ 1 ∧
    (∀ k, k ≠ "pending_implementors" → window w' !! k = win !! k) ∧
    window w' !! "implementors" = win !! "implementors".
Proof.
  destruct (script_cases win) as [(f & _ & ->) | [(_ & _ & ->) | (_ & ->)]];
    eexists _, _; (split; [reflexivity|]); cbn [trace window];
    change (reads _) with ["register_implementors"; "register_implementors"]
      || change (reads _) with ["register_implementors"].
  1, 2: split; [intros k; rewrite !elem_of_cons, elem_of_nil; tauto|];
        split; [intros k v Hk; by apply elem_of_nil in Hk|];
        split; [cbn; lia|]; done.
  split; [intros k; rewrite !elem_of_cons, elem_of_nil; tauto|].
  split.
  { intros k v. change (writes _) with [("pending_implementors", implementors)].
    rewrite elem_of_cons, elem_of_nil. intros [[= -> _]|[]]. done. }
  split; [done|].
  split; [intros k Hk; by apply lookup_insert_ne|].
  by apply lookup_insert_ne.
Qed.

(** C10. A run is decided by what the hook property and the pending slot
    hold at the start: two pages that agree on these two, whatever else they
    hold, see the script end the same way, with the same events in the same
    order (so the same calls with the same arguments) and the same value in
    the pending slot. *)
Theorem script_deterministic (win1 win2 : gmap string value) :
  read "register_implementors" win1 = read "register_implementors" win2 →
  read "pending_implementors" win1 = read "pending_implementors" win2 →
  (run_script win1).1 = (run_script win2).1 ∧
  trace (run_script win1).2 = trace (run_script win2).2 ∧
  calls (trace (run_script win1).2) = calls (trace (run_script win2).2) ∧
  pending_slot (run_script win1).2 = pending_slot (run_script win2).2.
Proof.
  intros Hhook Hslot.
  assert (Htr : (run_script win1).1 = (run_script win2).1 ∧
                trace (run_script win1).2 = trace (run_script win2).2 ∧
                pending_slot (run_script win1).2
                  = pending_slot (run_script win2).2).
  { unfold pending_slot.
    destruct (script_cases win1) as [(f1 & Hf1 & ->) | [(Ht1 & Hc1 & ->) | (Ht1 & ->)]];
    destruct (script_cases win2) as [(f2 & Hf2 & ->) | [(Ht2 & Hc2 & ->) | (Ht2 & ->)]];
      cbn [fst snd trace window];
      rewrite ?Hhook in *;
      destruct (read "register_implementors" win2);
      cbn [truthy callable] in *; simplify_eq;
      rewrite ?read_insert_eq; try done; congruence. }
  destruct Htr as (Ho & Ht & Hp). by rewrite Ho, Ht, Hp.
Qed.

Lemma script_deterministic_witness :
  let win1 : gmap string value :=
    {["register_implementors" := VFun "register"; "searchIndex" := VNum 1]} in
  let win2 : gmap string value :=
    {["register_implementors" := VFun "register"; "implementors" := VNull]} in
  win1 ≠ win2 ∧
  (run_script win1).1 = (run_script win2).1 ∧
  trace (run_script win1).2 = trace (run_script win2).2 ∧
  calls (trace (run_script win1).2) = calls (trace (run_script win2).2) ∧
  pending_slot (run_script win1).2 = pending_slot (run_script win2).2.
Proof.
  intros win1 win2. split.
  - intros Heq. apply (f_equal (λ m, m !! "searchIndex")) in Heq.
    vm_compute in Heq. discriminate.
  - apply (script_deterministic win1 win2); reflexivity.
Defined.

(** ** The script as a machine with two states *)

Lemma silent_construction : Forall silent construction.
Proof.
  repeat constructor; intros l w; try done.
  all: unfold s_assign, set_prop; by destruct l.
Qed.

Lemma s_publish_world l w : (s_publish l w).2 = (publish l w).2.
Proof.
  unfold s_publish, bind, ret.
  by destruct (publish l w) as [[[]|e] w'].
Qed.

(** One call of [publish] publishes at most once. *)
Lemma publish_at_most_once R w :
  length (publications (trace (publish R w).2))
  ≤ S (length (publications (trace w))).
Proof.
  hook_cases (read "register_implementors" (window w));
    [ apply callable_function in Hc as [f Hf];
      rewrite (publish_function _ _ f Hf)
    | rewrite publish_not_callable by done
    | rewrite publish_falsy by done ];
    cbn [snd trace]; rewrite publications_app, length_app; cbn; lia.
Qed.

Lemma loader_inv_start win : loader_inv (start win).
Proof.
  left. split; [done|]. exists construction.
  split; [done | apply silent_construction].
Qed.

Lemma loader_inv_step c c' : loader_inv c → step c c' → loader_inv c'.
Proof.
  intros [[Htr (pre & Hrest & Hsil)] | [Hrest _]] Hstep;
    inversion Hstep as [s ss l w l' w' Hs | s ss l w e w' Hs];
    subst; cbn [rest env] in *; try discriminate.
  - destruct pre as [|p pre]; cbn [app] in Hrest; simplify_eq.
    + right. split; [done|].
      pose proof (s_publish_world l w) as Hw. rewrite Hs in Hw. cbn in Hw.
      rewrite Hw. pose proof (publish_at_most_once l w) as Hle.
      rewrite Htr in Hle. exact Hle.
    + apply Forall_cons in Hsil as [Hp Hsil].
      specialize (Hp l w). rewrite Hs in Hp. cbn in Hp. subst w'.
      left. split; [done|]. by exists pre.
  - right. split; [done|].
    destruct pre as [|p pre]; cbn [app] in Hrest; simplify_eq.
    + pose proof (s_publish_world l w) as Hw. rewrite Hs in Hw. cbn in Hw.
      rewrite Hw. pose proof (publish_at_most_once l w) as Hle.
      rewrite Htr in Hle. exact Hle.
    + apply Forall_cons in Hsil as [Hp _].
      specialize (Hp l w). rewrite Hs in Hp. cbn in Hp. subst w'.
      cbn [env]. rewrite Htr. cbn. lia.
Qed.

Lemma loader_inv_reachable win c : rtc step (start win) c → loader_inv c.
Proof.
  intros Hrtc. pose proof (loader_inv_start win) as Hinv.
  induction Hrtc as [|c1 c2 c3 Hstep _ IH]; [done|].
  apply IH. by apply (loader_inv_step c1).
Qed.

(** A script that is over stays where it is. *)
Lemma finished_stays c c' : rest c = [] → rtc step c c' → c' = c.
Proof.
  intros Hrest Hrtc. destruct Hrtc as [|c1 c2 c3 Hstep _]; [done|].
  inversion Hstep; subst; discriminate.
Qed.

Lemma published_finished c :
  loader_inv c → phase_of c = PUBLISHED → rest c = [].
Proof.
  intros [[Htr _] | [Hrest _]] Hp; [|done].
  unfold phase_of in Hp. rewrite Htr in Hp. discriminate.
Qed.

(** The step relation runs the same program as [run]: from any place the
    script reaches its end, in the world [run] computes. *)
Lemma run_steps ss l w :
  ∃ l', rtc step (Config ss l w) (Config [] l' (run ss l w).2).
Proof.
  revert l w. induction ss as [|s ss IH]; intros l w.
  - exists l. apply rtc_refl.
  - cbn [run]. unfold bind. destruct (s l w) as [[l1|e] w1] eqn:Hs.
    + destruct (IH l1 w1) as [l' Hrtc]. exists l'.
      eapply rtc_l; [by apply step_done | exact Hrtc].
    + exists l. apply rtc_once. by apply (step_throw s ss l w e).
Qed.

Lemma script_steps win :
  ∃ l, rtc step (start win) (Config [] l (run_script win).2).
Proof.
  destruct (run_steps body VUndefined (fresh win)) as [l Hrtc].
  exists l. replace (run_script win).2 with (run body VUndefined (fresh win)).2;
    [exact Hrtc|].
  unfold run_script, script, bind, ret.
  by destruct (run body VUndefined (fresh win)) as [[l'|e] w'].
Qed.

(** C8. The loader has two states.  It starts UNPUBLISHED.  Wherever the
    script gets to, it has published at most once.  The only step that
    leads to PUBLISHED is the run of the publishing statement, the last of
    the script.  Once PUBLISHED the script is over: no step leaves that
    state, so it is never UNPUBLISHED again and publishes nothing more. *)
Theorem published_is_terminal (win : gmap string value) (c : config) :
  rtc step (start win) c →
  (∀ p : phase, p = UNPUBLISHED ∨ p = PUBLISHED) ∧
  phase_of (start win) = UNPUBLISHED ∧
  length (publications (trace (env c))) ≤ 1 ∧
  (∀ c', step c c' → phase_of c' = PUBLISHED →
         phase_of c = UNPUBLISHED ∧ rest c = [s_publish] ∧ rest c' = []) ∧
  (phase_of c = PUBLISHED →
     (∀ c', ¬ step c c') ∧
     (∀ c', rtc step c c' → c' = c ∧ phase_of c' = PUBLISHED)).
Proof.
  intros Hreach. pose proof (loader_inv_reachable win c Hreach) as Hinv.
  split; [intros []; auto|]. split; [done|]. split; [|split].
  - destruct Hinv as [[Htr _] | [_ Hle]]; [|done].
    rewrite Htr. cbn. lia.
  - intros c' Hstep Hp.
    destruct Hinv as [[Htr (pre & Hrest & Hsil)] | [Hrest _]].
    + split; [unfold phase_of; by rewrite Htr|].
      destruct pre as [|p pre].
      * inversion Hstep; subst; cbn [rest app] in *; by simplify_eq.
      * exfalso. apply Forall_cons in Hsil as [Hsil _].
        inversion Hstep as [s ss l w l' w' Hs | s ss l w e w' Hs];
          subst; cbn [rest env app] in *; simplify_eq;
          specialize (Hsil l w); rewrite Hs in Hsil; cbn in Hsil; subst w';
          unfold phase_of in Hp; cbn [env] in Hp; rewrite Htr in Hp;
          discriminate.
    + inversion Hstep; subst; discriminate.
  - intros Hp. pose proof (published_finished c Hinv Hp) as Hrest.
    split.
    + intros c' Hstep. inversion Hstep; subst; discriminate.
    + intros c' Hrtc. apply (finished_stays c c' Hrest) in Hrtc as ->. done.
Qed.

Lemma published_is_terminal_witness :
  let c : config :=
    Config [] implementors
      (World {["pending_implementors" := implementors]}
         [EvRead "register_implementors";
          EvWrite "pending_implementors" implementors]) in
  rtc step (start ∅) c ∧
  phase_of c = PUBLISHED ∧
  length (publications (trace (env c))) ≤ 1 ∧
  (∀ c', ¬ step c c') ∧
  (∀ c', rtc step c c' → c' = c ∧ phase_of c' = PUBLISHED).
Proof.
  intros c.
  assert (Hrtc : rtc step (start ∅) c).
  { do 5 (eapply rtc_l; [eapply step_done; reflexivity|]). apply rtc_refl. }
  assert (Hp : phase_of c = PUBLISHED) by reflexivity.
  destruct (published_is_terminal ∅ c Hrtc) as (_ & _ & Hle & _ & Hterm).
  split; [exact Hrtc|]. split; [exact Hp|]. split; [exact Hle|].
  exact (Hterm Hp).
Defined.

(** * Further properties of the script *)

(** ** When the hook is no function *)

(** X1. A page that keeps in [window.register_implementors] a value that
    passes the [if] and is not a function (a number, a string, an object)
    makes [publish] fail: the call throws a [TypeError], and by then the
    script has called nothing, written nothing and left [window] as it
    was.  The registry is not buffered in that case. *)
Theorem publish_non_function_hook (R : value) (w : world) :
  truthy (read "register_implementors" (window w)) = true →
  callable (read "register_implementors" (window w)) = false →
  (publish R w).1 = Throw TypeError ∧
  window (publish R w).2 = window w ∧
  pending_slot (publish R w).2 = pending_slot w ∧
  calls (trace (publish R w).2) = calls (trace w) ∧
  writes (trace (publish R w).2) = writes (trace w) ∧
  publications (trace (publish R w).2) = publications (trace w).
Proof.
  intros Ht Hc. rewrite publish_not_callable by done.
  cbn [fst snd trace window]. unfold pending_slot. cbn [window].
  by rewrite calls_app, writes_app, publications_app, !app_nil_r.
Qed.

Lemma publish_non_function_hook_witness :
  let page : world := fresh {["register_implementors" := VObj ∅]} in
  truthy (read "register_implementors" (window page)) = true ∧
  callable (read "register_implementors" (window page)) = false ∧
  (publish implementors page).1 = Throw TypeError ∧
  window (publish implementors page).2 = window page ∧
  pending_slot (publish implementors page).2 = VUndefined ∧
  calls (trace (publish implementors page).2) = [] ∧
  writes (trace (publish implementors page).2) = [] ∧
  publications (trace (publish implementors page).2) = [].
Proof.
  intros page.
  assert (Ht : truthy (read "register_implementors" (window page)) = true)
    by reflexivity.
  assert (Hc : callable (read "register_implementors" (window page)) = false)
    by reflexivity.
  split; [exact Ht|]. split; [exact Hc|].
  exact (publish_non_function_hook implementors page Ht Hc).
Defined.

(** ** What [publish] leaves alone *)

(** X2. Whatever the value published and however the call ends, the
    exception included, [publish] changes no property of [window] but
    [pending_implementors] and removes none.  In particular the hook
    property is after the call what it was before: [publish] never
    installs, replaces or removes the hook. *)
Theorem publish_frame (R : value) (w : world) :
  (∀ k, k ≠ "pending_implementors" →
        window (publish R w).2 !! k = window w !! k) ∧
  read "register_implementors" (window (publish R w).2)
    = read "register_implementors" (window w) ∧
  dom (window w) ⊆ dom (window (publish R w).2).
Proof.
  assert (Hframe : ∀ k, k ≠ "pending_implementors" →
            window (publish R w).2 !! k = window w !! k).
  { intros k Hk.
    hook_cases (read "register_implementors" (window w));
      [ apply callable_function in Hc as [f Hf];
        rewrite (publish_function _ _ f Hf)
      | rewrite publish_not_callable by done
      | rewrite publish_falsy by done ];
      cbn [snd window]; [done | done | by apply lookup_insert_ne]. }
  split; [exact Hframe|]. split.
  - unfold read. by rewrite Hframe.
  - intros k [v Hv]%elem_of_dom. apply elem_of_dom.
    destruct (decide (k = "pending_implementors")) as [->|Hk].
    + hook_cases (read "register_implementors" (window w));
        [ apply callable_function in Hc as [f Hf];
          rewrite (publish_function _ _ f Hf)
        | rewrite publish_not_callable by done
        | rewrite publish_falsy by done ];
        cbn [snd window]; rewrite ?lookup_insert_eq; eauto.
    + rewrite Hframe by done. eauto.
Qed.

Lemma publish_all_cons r rs w :
  publish_all (r :: rs) w =
    match publish r w with
    | (Done _, w1) => publish_all rs w1
    | (Throw e, w1) => (Throw e, w1)
    end.
Proof. reflexivity. Qed.

(** ** The script included more than once *)

(** X3. With the hook installed, publishing any number of registries one
    after the other hands every one of them to the hook, once each and in
    the order they came, and writes nothing: nothing is lost and nothing is
    delivered twice. *)
Theorem publish_all_delivers_each (Rs : list value) (w : world) :
  hook_installed (window w) →
  ∃ f w',
    read "register_implementors" (window w) = VFun f ∧
    publish_all Rs w = (Done tt, w') ∧
    calls (trace w') = calls (trace w) ++ ((λ R, (f, [R])) <$> Rs) ∧
    writes (trace w') = writes (trace w) ∧
    window w' = window w.
Proof.
  intros [f Hf]%callable_function. exists f.
  revert w Hf. induction Rs as [|R Rs IH]; intros w Hf.
  - exists w. cbn [publish_all fmap list_fmap]. by rewrite app_nil_r.
  - rewrite publish_all_cons, (publish_function R w f Hf).
    set (w1 := World (window w) _).
    destruct (IH w1 Hf) as (w' & _ & Hrun & Hcalls & Hwrites & Hwin).
    exists w'. split; [done|]. split; [exact Hrun|].
    rewrite Hcalls, Hwrites, Hwin. subst w1. cbn [trace window].
    rewrite calls_app, writes_app, fmap_cons, <- app_assoc, app_nil_r.
    done.
Qed.

Lemma publish_all_delivers_each_witness :
  let page : world := fresh {["register_implementors" := VFun "register"]} in
  let A : value := VObj {["modA" := VArr []]} in
  let B : value := VObj {["modB" := VArr []]} in
  hook_installed (window page) ∧
  ∃ w',
    publish_all [A; B; A] page = (Done tt, w') ∧
    calls (trace w') = [("register", [A]); ("register", [B]); ("register", [A])] ∧
    writes (trace w') = [] ∧
    window w' = window page.
Proof.
  intros page A B.
  assert (Hi : hook_installed (window page)) by reflexivity.
  split; [exact Hi|].
  destruct (publish_all_delivers_each [A; B; A] page Hi)
    as (f & w' & Hf & Hrun & Hcalls & Hwrites & Hwin).
  exists w'. split; [exact Hrun|]. split; [|by split].
  rewrite Hcalls. by injection Hf as <-.
Defined.

Lemma publish_all_absent Rs R w :
  hook_absent (window w) →
  ∃ w',
    publish_all (Rs ++ [R]) w = (Done tt, w') ∧
    window w' = <["pending_implementors" := R]> (window w) ∧
    calls (trace w') = calls (trace w).
Proof.
  revert w. induction Rs as [|R0 Rs IH]; intros w Ha.
  - cbn [app]. rewrite publish_all_cons, publish_falsy by done.
    eexists. split; [reflexivity|]. cbn [window trace].
    by rewrite calls_app, app_nil_r.
  - cbn [app]. rewrite publish_all_cons, (publish_falsy R0 w Ha).
    set (w0 := World (<["pending_implementors" := R0]> (window w)) _).
    assert (Ha0 : hook_absent (window w0)).
    { unfold hook_absent. subst w0. cbn [window]. by rewrite read_insert_ne. }
    destruct (IH w0 Ha0) as (w' & Hrun & Hwin & Hcalls).
    exists w'. split; [exact Hrun|].
    rewrite Hwin, Hcalls. subst w0. cbn [window trace].
    by rewrite insert_insert_eq, calls_app, app_nil_r.
Qed.

(** X4. With the hook absent, publishing registries one after the other
    keeps the last one only: the page ends up exactly as if the last
    registry alone had been published, the earlier ones leaving no trace in
    [window], and the hook is never called. *)
Theorem publish_all_keeps_last (Rs : list value) (R : value) (w : world) :
  hook_absent (window w) →
  ∃ w1 w',
    publish R w = (Done tt, w1) ∧
    publish_all (Rs ++ [R]) w = (Done tt, w') ∧
    window w' = window w1 ∧
    window w' = <["pending_implementors" := R]> (window w) ∧
    pending_slot w' = R ∧
    calls (trace w') = calls (trace w).
Proof.
  intros Ha.
  destruct (publish_all_absent Rs R w Ha) as (w' & Hrun & Hwin & Hcalls).
  eexists _, w'. split; [by apply publish_falsy|].
  split; [exact Hrun|]. cbn [window]. split; [exact Hwin|].
  split; [exact Hwin|]. split; [|exact Hcalls].
  unfold pending_slot. rewrite Hwin. apply read_insert_eq.
Qed.

Lemma publish_all_keeps_last_witness :
  let A : value := VObj {["modA" := VArr []]} in
  let B : value := VObj {["modB" := VArr []]} in
  hook_absent (window (fresh ∅)) ∧
  ∃ w',
    publish_all [A; A; B] (fresh ∅) = (Done tt, w') ∧
    window w' = {["pending_implementors" := B]} ∧
    calls (trace w') = [].
Proof.
  intros A B.
  assert (Ha : hook_absent (window (fresh ∅))) by reflexivity.
  split; [exact Ha|].
  destruct (publish_all_keeps_last [A; A] B (fresh ∅) Ha)
    as (w1 & w' & _ & Hrun & _ & Hwin & _ & Hcalls).
  exists w'. split; [exact Hrun|]. by split.
Defined.

(** ** What the descriptors say *)

Lemma entry_ok_sound crate d :
  entry_ok crate d = true →
  ∃ props s, d = VObj props ∧
    props !! "synthetic" = Some (VBool false) ∧
    props !! "types" = Some (VArr [VStr s]) ∧
    crate_of s = Some crate.
Proof.
  destruct d as [| | | | | |props|]; try discriminate.
  unfold entry_ok.
  destruct (props !! "synthetic") as [[| |[]| | | | |]|] eqn:E1;
    try discriminate.
  destruct (props !! "types") as [[| | | | |[|[| | | |s| | |] []]| |]|] eqn:E2;
    try discriminate.
  destruct (crate_of s) as [c|] eqn:E3; [|discriminate].
  intros ->%String.eqb_eq. by exists props, s.
Qed.

(** X5. In the registry of this script every descriptor comes from the
    exact analysis ([synthetic] is false) and names exactly one type, whose
    path starts with the crate the descriptor is listed under; and the 25
    type paths are all different, so no implementation is listed twice. *)
Theorem registry_entries :
  ∃ m, implementors = VObj m ∧
    (∀ k v, m !! k = Some v →
       ∃ ds, v = VArr ds ∧
         ∀ d, d ∈ ds →
           ∃ props s, d = VObj props ∧
             props !! "synthetic" = Some (VBool false) ∧
             props !! "types" = Some (VArr [VStr s]) ∧
             crate_of s = Some k) ∧
    NoDup (registry_paths implementors) ∧
    length (registry_paths implementors) = 25.
Proof.
  pose (m := <["scale_info" := VArr scale_info_impls]>
            (<["ink_primitives" := VArr ink_primitives_impls]>
            (<["ink_env" := VArr ink_env_impls]> (∅ : gmap string value)))).
  assert (Hall : forallb entries_ok (map_to_list m) = true)
    by (vm_compute; reflexivity).
  exists m. split; [reflexivity|]. clearbody m.
  split; [|split].
  - intros k v Hkv. apply elem_of_map_to_list in Hkv.
    pose proof (forallb_elem_of entries_ok _ _ Hall Hkv) as Hb.
    unfold entries_ok in Hb. cbn [fst snd] in Hb.
    destruct v as [| | | | |ds| |]; try discriminate.
    exists ds. split; [reflexivity|].
    intros d Hd. apply entry_ok_sound.
    exact (forallb_elem_of (entry_ok k) ds d Hb Hd).
  - apply (bool_decide_unpack _). vm_compute. exact I.
  - vm_compute. reflexivity.
Qed.

(** ** The registry while it is built *)

Lemma s_publish_local l w l' w' : s_publish l w = (Done l', w') → l' = l.
Proof.
  unfold s_publish, bind, ret.
  destruct (publish l w) as [[[]|e] w1]; congruence.
Qed.

Lemma run_script_world win :
  (run_script win).2 = (s_publish implementors (fresh win)).2.
Proof.
  unfold run_script. by rewrite script_publish, s_publish_world.
Qed.

Lemma reach_inv_step win c c' : reach_inv win c → step c c' → reach_inv win c'.
Proof.
  intros [(k & Hk & ->) | (Hrest & _ & _)] Hstep.
  - assert (Hcases : k = 0 ∨ k = 1 ∨ k = 2 ∨ k = 3 ∨ k = 4) by lia.
    destruct Hcases as [-> | [-> | [-> | [-> | ->]]]];
      inversion Hstep as [s ss l w l' w' Hs | s ss l w e w' Hs]; subst.
    + left. exists 1. split; [lia|]. cbv [s_init ret] in Hs. by simplify_eq.
    + cbv [s_init ret] in Hs. discriminate.
    + left. exists 2. split; [lia|].
      cbv [s_assign set_prop ret partial_registry] in Hs. by simplify_eq.
    + cbv [s_assign set_prop ret partial_registry] in Hs. discriminate.
    + left. exists 3. split; [lia|].
      cbv [s_assign set_prop ret partial_registry] in Hs. by simplify_eq.
    + cbv [s_assign set_prop ret partial_registry] in Hs. discriminate.
    + left. exists 4. split; [lia|].
      cbv [s_assign set_prop ret partial_registry] in Hs. by simplify_eq.
    + cbv [s_assign set_prop ret partial_registry] in Hs. discriminate.
    + right. cbn [rest local env].
      change (partial_registry 4) with implementors in *.
      split; [done|]. split; [by apply (s_publish_local _ _ _ _ Hs)|].
      by rewrite run_script_world, Hs.
    + right. cbn [rest local env].
      change (partial_registry 4) with implementors in *.
      split; [done|]. split; [done|].
      by rewrite run_script_world, Hs.
  - inversion Hstep; subst; discriminate.
Qed.

Lemma reach_inv_reachable win c : rtc step (start win) c → reach_inv win c.
Proof.
  intros Hrtc.
  assert (Hinv : reach_inv win (start win)).
  { left. exists 0. split; [lia | done]. }
  induction Hrtc as [|c1 c2 c3 Hstep _ IH]; [done|].
  apply IH. by apply (reach_inv_step win c1).
Qed.

(** X6. The page never sees a registry that is half built.  Wherever the
    script is, as long as a statement is left to run it has read nothing,
    written nothing and called nothing; when it is over the page is as
    [run_script] computes it; and whatever was handed to the hook or written
    to the pending slot is the complete registry, nothing else. *)
Theorem only_complete_registry_published
    (win : gmap string value) (c : config) :
  rtc step (start win) c →
  (rest c ≠ [] → env c = fresh win) ∧
  (rest c = [] → env c = (run_script win).2) ∧
  (∀ f args, (f, args) ∈ calls (trace (env c)) → args = [implementors]) ∧
  (∀ k v, (k, v) ∈ writes (trace (env c)) →
          k = "pending_implementors" ∧ v = implementors).
Proof.
  intros Hreach.
  destruct (reach_inv_reachable win c Hreach)
    as [(k & Hk & ->) | (Hrest & _ & Henv)].
  - cbn [building rest env fresh trace].
    split; [done|]. split.
    + assert (Hcases : k = 0 ∨ k = 1 ∨ k = 2 ∨ k = 3 ∨ k = 4) by lia.
      destruct Hcases as [-> | [-> | [-> | [-> | ->]]]]; discriminate.
    + split; [intros f args Hin | intros k' v Hin];
        by apply elem_of_nil in Hin.
  - split; [done|]. split; [done|]. rewrite Henv.
    destruct (script_cases win) as [(f & _ & ->) | [(_ & _ & ->) | (_ & ->)]];
      cbn [snd trace].
    + change (calls _) with [(f, [implementors])].
      change (writes _) with (@nil (string * value)).
      split; [intros f' args Hin | intros k' v Hin].
      * apply list_elem_of_singleton in Hin. by simplify_eq.
      * by apply elem_of_nil in Hin.
    + change (calls _) with (@nil (string * list value)).
      change (writes _) with (@nil (string * value)).
      split; [intros f' args Hin | intros k' v Hin];
        by apply elem_of_nil in Hin.
    + change (calls _) with (@nil (string * list value)).
      change (writes _) with [("pending_implementors", implementors)].
      split; [intros f' args Hin | intros k' v Hin].
      * by apply elem_of_nil in Hin.
      * apply list_elem_of_singleton in Hin. by simplify_eq.
Qed.

Lemma only_complete_registry_published_witness :
  let win : gmap string value := {["register_implementors" := VFun "register"]} in
  let c : config :=
    Config [] implementors
      (World win
         [EvRead "register_implementors";
          EvRead "register_implementors";
          EvCall "register" [implementors]]) in
  rtc step (start win) c ∧
  calls (trace (env c)) = [("register", [implementors])] ∧
  env c = (run_script win).2 ∧
  (∀ f args, (f, args) ∈ calls (trace (env c)) → args = [implementors]).
Proof.
  intros win c.
  assert (Hrtc : rtc step (start win) c).
  { do 5 (eapply rtc_l; [eapply step_done; reflexivity|]). apply rtc_refl. }
  destruct (only_complete_registry_published win c Hrtc)
    as (_ & Hend & Hcalls & _).
  split; [exact Hrtc|]. split; [reflexivity|].
  split; [exact (Hend eq_refl) | exact Hcalls].
Defined.
